(** * String-vibration circuit: a shallow embedding of [main.py]

    The Python module builds a Qiskit circuit with five gate-placement
    loops ([create_string_vibration_circuit]), submits it to a simulator
    ([simulate_string_theory]) and summarises the returned counts
    ([analyze_results]).

    Python integers are [Z].  A [QuantumCircuit] is a mutable object the
    builder appends to: it is modelled by a state-and-exception monad over
    a record holding the number of qubits, the number of classical bits
    and the instruction list.  A Python [dict] of counts is an association
    list in insertion order, because [max] breaks ties by iteration
    order. *)

From Stdlib Require Import ZArith List Lia Bool String QArith Sorted FinFun
  Permutation.
Import ListNotations.

Local Open Scope Z_scope.

(** ** Exceptions and results *)

Inductive exn : Type :=
| CircuitError
| ValueError
| ZeroDivisionError.

(** [inl e] is a raised exception, [inr v] a returned value. *)
Definition result (A : Type) : Type := (exn + A)%type.

(** ** Python ranges *)

(** [range(a, b)]: the integers [a, a+1, ..., b-1]; empty when [b <= a]. *)
Definition range2 (a b : Z) : list Z :=
  map (fun k => a + Z.of_nat k) (seq 0 (Z.to_nat (b - a))).

(** [range(n)]. *)
Definition range (n : Z) : list Z := range2 0 n.

(** ** Circuits *)

(** The rotation angle [np.pi / 4] is kept symbolic: [PiOver k] stands
    for the literal [np.pi / k]. *)
Inductive angle : Type :=
| PiOver (k : Z).

Inductive Instruction : Type :=
| HGate (q : Z)
| CXGate (control target : Z)
| RZGate (theta : angle) (q : Z)
| CZGate (control target : Z)
| Measure (q c : Z).

Record Register : Type := mkRegister {
  size : Z;
  name : string
}.

Record QuantumCircuit : Type := mkCircuit {
  num_qubits : Z;
  num_clbits : Z;
  data : list Instruction
}.

(** [QuantumRegister(size, name)] and [ClassicalRegister(size, name)]:
    the register constructor rejects a negative size with a
    [CircuitError]; a register of size zero is built. *)
Definition new_register (sz : Z) (nm : string) : result Register :=
  if sz <? 0 then inl CircuitError else inr (mkRegister sz nm).

(** [QuantumCircuit(qr, cr)]: an empty circuit over the two registers. *)
Definition new_circuit (qr cr : Register) : QuantumCircuit :=
  mkCircuit (size qr) (size cr) [].

(** ** The builder monad: one circuit as state, exceptions as failure *)

Definition circ (A : Type) : Type :=
  QuantumCircuit -> result (A * QuantumCircuit).

Definition ret {A} (a : A) : circ A := fun c => inr (a, c).

Definition raise {A} (e : exn) : circ A := fun _ => inl e.

Definition bind {A B} (m : circ A) (k : A -> circ B) : circ B :=
  fun c => match m c with
           | inl e => inl e
           | inr (a, c') => k a c'
           end.

Notation "m ;; k" := (bind m (fun _ => k))
  (at level 61, right associativity).

(** [for x in l: body(x)]. *)
Fixpoint for_ (l : list Z) (body : Z -> circ unit) : circ unit :=
  match l with
  | [] => ret tt
  | x :: l' => body x ;; for_ l' body
  end.

(** Python's [if cond: body] with no [else]. *)
Definition when (b : bool) (body : circ unit) : circ unit :=
  if b then body else ret tt.

(** A qubit given by integer is looked up in the circuit's qubit list
    with Python indexing: [-n <= q < n], negative values counting from
    the end; anything else raises. *)
Definition resolve (n q : Z) : option Z :=
  if (0 <=? q) && (q <? n) then Some q
  else if (- n <=? q) && (q <? 0) then Some (q + n)
  else None.

Definition append (i : Instruction) : circ unit :=
  fun c => inr (tt, mkCircuit (num_qubits c) (num_clbits c) (data c ++ [i])).

(** Single-qubit gate application. *)
Definition gate1 (mk : Z -> Instruction) (q : Z) : circ unit :=
  fun c => match resolve (num_qubits c) q with
           | Some q' => append (mk q') c
           | None => inl CircuitError
           end.

(** Two-qubit gate application; the two qubits must differ. *)
Definition gate2 (mk : Z -> Z -> Instruction) (a b : Z) : circ unit :=
  fun c => match resolve (num_qubits c) a, resolve (num_qubits c) b with
           | Some a', Some b' =>
               if a' =? b' then inl CircuitError else append (mk a' b') c
           | _, _ => inl CircuitError
           end.

Definition h : Z -> circ unit := gate1 HGate.
Definition cx : Z -> Z -> circ unit := gate2 CXGate.
Definition rz (theta : angle) : Z -> circ unit := gate1 (RZGate theta).
Definition cz : Z -> Z -> circ unit := gate2 CZGate.

(** [circuit.measure(qr, cr)] with two whole registers: the arguments
    are broadcast, bit [k] of [qr] being measured into bit [k] of [cr]
    when the sizes agree; a one-qubit register is measured into every
    bit of [cr]; any other shape raises. *)
Definition measure (qr cr : Register) : circ unit :=
  if size cr =? size qr then
    for_ (range (size qr)) (fun k => append (Measure k k))
  else if (size qr =? 1) && (0 <? size cr) then
    for_ (range (size cr)) (fun k => append (Measure 0 k))
  else raise CircuitError.

(** ** [create_string_vibration_circuit] *)

(** The linear qubit index the two entangling loops compute:
    [i + (dim * num_qubits)]. *)
Definition index (nq dim i : Z) : Z := i + (dim * nq).

Definition np_pi_div_4 : angle := PiOver 4.

Definition superposition_stage (nq nd : Z) : circ unit :=
  for_ (range (nq * nd)) (fun i => h i).

Definition coupling_stage (nq nd : Z) : circ unit :=
  for_ (range nd) (fun dim =>
    for_ (range (nq - 1)) (fun i =>
      let control := i + (dim * nq) in
      let target := (i + 1) + (dim * nq) in
      cx control target)).

Definition phase_stage (nq nd : Z) : circ unit :=
  for_ (range (nq * nd)) (fun i => rz np_pi_div_4 i).

Definition interference_stage (nq nd : Z) : circ unit :=
  when (1 <? nd)
    (for_ (range nq) (fun i =>
       for_ (range nd) (fun dim1 =>
         for_ (range2 (dim1 + 1) nd) (fun dim2 =>
           let control := i + (dim1 * nq) in
           let target := i + (dim2 * nq) in
           cz control target)))).

Definition create_string_vibration_circuit (nq nd : Z)
  : result QuantumCircuit :=
  match new_register (nq * nd) "string" with
  | inl e => inl e
  | inr qr =>
    match new_register (nq * nd) "measurement" with
    | inl e => inl e
    | inr cr =>
      match (superposition_stage nq nd ;;
             coupling_stage nq nd ;;
             phase_stage nq nd ;;
             interference_stage nq nd ;;
             measure qr cr) (new_circuit qr cr) with
      | inl e => inl e
      | inr (_, circuit) => inr circuit
      end
    end
  end.

(** ** [simulate_string_theory] *)

(** A dict of counts in insertion order. *)
Definition Counts : Type := list (string * Z).

(** What the runner asks of the simulator: [Aer.get_backend(backend)]
    followed by [execute(circuit, simulator, shots=shots)], whose job
    result is read with [get_counts]. *)
Inductive request : Type :=
| Execute (circuit : QuantumCircuit) (backend : string) (shots : Z).

(** A computation that may call the simulator. *)
Inductive run (A : Type) : Type :=
| Return (a : A)
| Fail (e : exn)
| Call (r : request) (k : Counts -> run A).

Arguments Return {A} a.
Arguments Fail {A} e.
Arguments Call {A} r k.

Definition simulate_string_theory : run Counts :=
  match create_string_vibration_circuit 4 2 with
  | inl e => Fail e
  | inr circuit =>
      Call (Execute circuit "qasm_simulator" 1000) (fun counts => Return counts)
  end.

(** Running a computation against a simulator, keeping the log of the
    requests it made.  A simulator failure is propagated. *)
Fixpoint interp {A} (simulator : request -> result Counts) (p : run A)
  : list request * result A :=
  match p with
  | Return a => ([], inr a)
  | Fail e => ([], inl e)
  | Call r k =>
      match simulator r with
      | inl e => ([r], inl e)
      | inr counts =>
          let (log, res) := interp simulator (k counts) in (r :: log, res)
      end
  end.

(** ** [analyze_results] *)

Record Analysis : Type := mkAnalysis {
  total_measurements : Z;
  unique_states : Z;
  most_common_state : string;
  highest_probability : Q
}.

(** [sum(xs)]. *)
Definition py_sum (xs : list Z) : Z := fold_left Z.add xs 0.

(** The loop of [max(xs, key=key)]: the running maximum is replaced only
    by a strictly greater key, so the first maximal item wins. *)
Fixpoint max_loop {A} (key : A -> Z) (best : A) (xs : list A) : A :=
  match xs with
  | [] => best
  | x :: xs' =>
      if key best <? key x then max_loop key x xs' else max_loop key best xs'
  end.

(** [max(xs, key=key)]; an empty argument raises [ValueError]. *)
Definition py_max {A} (key : A -> Z) (xs : list A) : result A :=
  match xs with
  | [] => inl ValueError
  | x :: xs' => inr (max_loop key x xs')
  end.

(** [a / b] on integers: true division.  The quotient is kept as the
    exact rational in lowest terms (Python rounds it to the nearest
    double); a zero divisor raises. *)
Definition py_truediv (a b : Z) : result Q :=
  if b =? 0 then inl ZeroDivisionError
  else inr (Qred (inject_Z a / inject_Z b)).

Definition analyze_results (counts : Counts) : result Analysis :=
  let total_shots := py_sum (map snd counts) in
  let unique := Z.of_nat (List.length counts) in
  match py_max snd counts with
  | inl e => inl e
  | inr most_common =>
    match py_max (fun v => v) (map snd counts) with
    | inl e => inl e
    | inr highest =>
      match py_truediv highest total_shots with
      | inl e => inl e
      | inr p => inr (mkAnalysis total_shots unique (fst most_common) p)
      end
    end
  end.

(** ** Expected gate placements, stage by stage *)

Definition hadamards (nq nd : Z) : list Instruction :=
  map HGate (range (nq * nd)).

Definition couplings (nq nd : Z) : list Instruction :=
  flat_map (fun d =>
    map (fun i => CXGate (index nq d i) (index nq d (i + 1)))
        (range (nq - 1)))
    (range nd).

Definition rotations (nq nd : Z) : list Instruction :=
  map (RZGate np_pi_div_4) (range (nq * nd)).

Definition interferences (nq nd : Z) : list Instruction :=
  flat_map (fun i =>
    flat_map (fun d1 =>
      map (fun d2 => CZGate (index nq d1 i) (index nq d2 i))
          (range2 (d1 + 1) nd))
      (range nd))
    (range nq).

Definition measurements (nq nd : Z) : list Instruction :=
  map (fun k => Measure k k) (range (nq * nd)).

(** The whole instruction list of a circuit built for [nq], [nd]. *)
Definition placements (nq nd : Z) : list Instruction :=
  hadamards nq nd ++ couplings nq nd ++ rotations nq nd ++
  interferences nq nd ++ measurements nq nd.

(** Gate kinds, in the order of the five stages. *)
Definition stage_of (i : Instruction) : nat :=
  match i with
  | HGate _ => 0
  | CXGate _ _ => 1
  | RZGate _ _ => 2
  | CZGate _ _ => 3
  | Measure _ _ => 4
  end%nat.

Definition is_stage (s : nat) (i : Instruction) : bool :=
  Nat.eqb (stage_of i) s.

(** An operation of an earlier or the same stage. *)
Definition stage_le (a b : Instruction) : Prop :=
  (stage_of a <= stage_of b)%nat.

(** The instructions of one kind, in circuit order. *)
Definition stage_ops (s : nat) (c : QuantumCircuit) : list Instruction :=
  filter (is_stage s) (data c).

(** Equality of instructions is decidable. *)
Definition Instruction_eq_dec (x y : Instruction) : {x = y} + {x <> y}.
Proof.
  repeat decide equality.
Defined.

(** [C(n, 2)]. *)
Definition choose2 (n : Z) : Z := n * (n - 1) / 2.

(** The circuit [c] with [ops] appended. *)
Definition extend (c : QuantumCircuit) (ops : list Instruction)
  : QuantumCircuit :=
  mkCircuit (num_qubits c) (num_clbits c) (data c ++ ops).

(** ** [run_simulation] *)

(** An f-string is kept as its parts: literal text and the values it
    formats.  [FFixed d q] is the value [q] under the format [:.df]; the
    conversion of values to characters is not modelled. *)
Inductive fragment : Type :=
| FText (s : string)
| FInt (z : Z)
| FStr (s : string)
| FFixed (digits : Z) (q : Q).

(** What the program does that can be observed from outside, in order:
    a line passed to [print], or a request to the simulator. *)
Inductive event : Type :=
| Printed (line : list fragment)
| Requested (r : request).

(** A computation that may print and may call the simulator. *)
Inductive script (A : Type) : Type :=
| Finish (a : A)
| Throw (e : exn)
| Say (line : list fragment) (k : script A)
| Ask (r : request) (k : Counts -> script A).

Arguments Finish {A} a.
Arguments Throw {A} e.
Arguments Say {A} line k.
Arguments Ask {A} r k.

(** Calling a function that only talks to the simulator, then going on
    with its value; its exception ends the caller too. *)
Fixpoint call {A B} (p : run A) (k : A -> script B) : script B :=
  match p with
  | Return a => k a
  | Fail e => Throw e
  | Call r f => Ask r (fun counts => call (f counts) k)
  end.

Definition newline : string := String (Ascii.ascii_of_nat 10) EmptyString.

Definition run_simulation : script (Counts * Analysis) :=
  Say [FText "Running string theory simulation..."]
  (call simulate_string_theory (fun counts =>
   match analyze_results counts with
   | inl e => Throw e
   | inr analysis =>
     Say [FText (newline ++ "Simulation Results:")]
     (Say [FText "Total measurements: ";
           FInt (total_measurements analysis)]
     (Say [FText "Unique states observed: ";
           FInt (unique_states analysis)]
     (Say [FText "Most common state: ";
           FStr (most_common_state analysis)]
     (Say [FText "Highest probability: ";
           FFixed 4 (highest_probability analysis)]
     (Finish (counts, analysis))))))
   end)).

(** Running a script against a simulator: the events in order, and the
    value returned or the exception that ended the script. *)
Fixpoint exec {A} (simulator : request -> result Counts) (p : script A)
  : list event * result A :=
  match p with
  | Finish a => ([], inr a)
  | Throw e => ([], inl e)
  | Say line k =>
      let (log, res) := exec simulator k in (Printed line :: log, res)
  | Ask r k =>
      match simulator r with
      | inl e => ([Requested r], inl e)
      | inr counts =>
          let (log, res) := exec simulator (k counts) in
          (Requested r :: log, res)
      end
  end.

(** The lines [run_simulation] prints once the analysis is there. *)
Definition report (analysis : Analysis) : list event :=
  [Printed [FText (newline ++ "Simulation Results:")];
   Printed [FText "Total measurements: ";
            FInt (total_measurements analysis)];
   Printed [FText "Unique states observed: ";
            FInt (unique_states analysis)];
   Printed [FText "Most common state: ";
            FStr (most_common_state analysis)];
   Printed [FText "Highest probability: ";
            FFixed 4 (highest_probability analysis)]].

(** The first line [run_simulation] prints. *)
Definition banner : event :=
  Printed [FText "Running string theory simulation..."].

(** ** Well-formed operands *)

(** The operands of an instruction are qubits (and classical bits) of
    the circuit, and a two-qubit gate acts on two different qubits. *)
Definition operands_ok (c : QuantumCircuit) (i : Instruction) : Prop :=
  match i with
  | HGate q => 0 <= q < num_qubits c
  | RZGate _ q => 0 <= q < num_qubits c
  | CXGate a b =>
      0 <= a < num_qubits c /\ 0 <= b < num_qubits c /\ a <> b
  | CZGate a b =>
      0 <= a < num_qubits c /\ 0 <= b < num_qubits c /\ a <> b
  | Measure q k => 0 <= q < num_qubits c /\ 0 <= k < num_clbits c
  end.

(** * Properties *)

(** ** Ranges *)

Lemma in_range2 (a b x : Z) : In x (range2 a b) <-> a <= x < b.
Proof.
  unfold range2. rewrite in_map_iff. split.
  - intros [k [<- Hk]]. apply in_seq in Hk. lia.
  - intros Hx. exists (Z.to_nat (x - a)). split; [lia|].
    apply in_seq. lia.
Qed.

Lemma in_range (n x : Z) : In x (range n) <-> 0 <= x < n.
Proof. apply in_range2. Qed.

Lemma length_range2 (a b : Z) :
  List.length (range2 a b) = Z.to_nat (b - a).
Proof. unfold range2. now rewrite length_map, length_seq. Qed.

Lemma length_range (n : Z) : List.length (range n) = Z.to_nat n.
Proof. unfold range. rewrite length_range2. f_equal. lia. Qed.

Lemma NoDup_range2 (a b : Z) : NoDup (range2 a b).
Proof.
  unfold range2. apply Injective_map_NoDup.
  - intros x y Hxy. lia.
  - apply seq_NoDup.
Qed.

Lemma range2_empty (a b : Z) : b <= a -> range2 a b = [].
Proof.
  intros Hab. unfold range2.
  replace (Z.to_nat (b - a)) with 0%nat by lia. reflexivity.
Qed.

Lemma flat_map_nil {A B} (f : A -> list B) (l : list A) :
  (forall x, In x l -> f x = []) -> flat_map f l = [].
Proof.
  induction l as [|x l IH]; intros Hf; cbn; [reflexivity|].
  rewrite (Hf x) by now left.
  apply IH. intros y Hy. apply Hf. now right.
Qed.

Lemma range_succ (n : Z) : 0 <= n -> range (n + 1) = range n ++ [n].
Proof.
  intros Hn. unfold range, range2.
  replace (Z.to_nat (n + 1 - 0)) with (S (Z.to_nat (n - 0))) by lia.
  rewrite seq_S, map_app. cbn [map]. do 3 f_equal. lia.
Qed.

(** ** Loops that only append *)

Lemma extend_nil (c : QuantumCircuit) : extend c [] = c.
Proof. destruct c. unfold extend. cbn. now rewrite app_nil_r. Qed.

Lemma extend_extend (c : QuantumCircuit) (xs ys : list Instruction) :
  extend (extend c xs) ys = extend c (xs ++ ys).
Proof. unfold extend. cbn. now rewrite app_assoc. Qed.

Lemma bind_appends (m k : circ unit) (c : QuantumCircuit)
      (xs ys : list Instruction) :
  m c = inr (tt, extend c xs) ->
  k (extend c xs) = inr (tt, extend c (xs ++ ys)) ->
  (m ;; k) c = inr (tt, extend c (xs ++ ys)).
Proof. intros Hm Hk. unfold bind. now rewrite Hm. Qed.

(** A loop whose body, on a circuit of [n] qubits, appends [f x] at
    iteration [x] appends the concatenation of the [f x]. *)
Lemma for_appends (n : Z) (f : Z -> list Instruction)
      (body : Z -> circ unit) (l : list Z) :
  (forall x c, In x l -> num_qubits c = n ->
               body x c = inr (tt, extend c (f x))) ->
  forall c, num_qubits c = n ->
            for_ l body c = inr (tt, extend c (flat_map f l)).
Proof.
  induction l as [|x l IH]; intros Hbody c Hc.
  - cbn. now rewrite extend_nil.
  - cbn [for_ flat_map]. apply bind_appends.
    + apply Hbody; [now left | assumption].
    + rewrite <- extend_extend. apply IH.
      * intros y c' Hy. apply Hbody. now right.
      * exact Hc.
Qed.

Lemma flat_map_single {A B} (g : A -> B) (l : list A) :
  flat_map (fun x => [g x]) l = map g l.
Proof. induction l as [|x l IH]; cbn; [reflexivity | now rewrite IH]. Qed.

Lemma resolve_in_range (n q : Z) : 0 <= q < n -> resolve n q = Some q.
Proof.
  intros Hq. unfold resolve.
  replace (0 <=? q) with true by (symmetry; apply Z.leb_le; lia).
  replace (q <? n) with true by (symmetry; apply Z.ltb_lt; lia).
  reflexivity.
Qed.

Lemma gate1_appends (mk : Z -> Instruction) (q : Z) (c : QuantumCircuit) :
  0 <= q < num_qubits c ->
  gate1 mk q c = inr (tt, extend c [mk q]).
Proof. intros Hq. unfold gate1. now rewrite resolve_in_range. Qed.

Lemma gate2_appends (mk : Z -> Z -> Instruction) (a b : Z)
      (c : QuantumCircuit) :
  0 <= a < num_qubits c -> 0 <= b < num_qubits c -> a <> b ->
  gate2 mk a b c = inr (tt, extend c [mk a b]).
Proof.
  intros Ha Hb Hab. unfold gate2. rewrite !resolve_in_range by assumption.
  replace (a =? b) with false by (symmetry; apply Z.eqb_neq; assumption).
  reflexivity.
Qed.

(** ** The five stages, each on a circuit of [nq * nd] qubits *)

Section Stages.
Variables nq nd : Z.
Variable c : QuantumCircuit.
Hypothesis Hc : num_qubits c = nq * nd.

Lemma superposition_stage_appends :
  superposition_stage nq nd c = inr (tt, extend c (hadamards nq nd)).
Proof.
  unfold superposition_stage, hadamards. rewrite <- flat_map_single.
  apply for_appends with (n := nq * nd); [|exact Hc].
  intros x c' Hx Hc'. apply in_range in Hx.
  apply gate1_appends. lia.
Qed.

Lemma phase_stage_appends :
  phase_stage nq nd c = inr (tt, extend c (rotations nq nd)).
Proof.
  unfold phase_stage, rotations. rewrite <- flat_map_single.
  apply for_appends with (n := nq * nd); [|exact Hc].
  intros x c' Hx Hc'. apply in_range in Hx.
  apply gate1_appends. lia.
Qed.

Lemma coupling_stage_appends :
  coupling_stage nq nd c = inr (tt, extend c (couplings nq nd)).
Proof.
  unfold coupling_stage, couplings.
  apply for_appends with (n := nq * nd); [|exact Hc].
  intros d c' Hd Hc'. apply in_range in Hd.
  rewrite <- flat_map_single.
  apply for_appends with (n := nq * nd); [|exact Hc'].
  intros i c'' Hi Hc''. apply in_range in Hi.
  unfold cx, index. apply gate2_appends; rewrite ?Hc''; nia.
Qed.

Lemma interference_stage_appends :
  interference_stage nq nd c = inr (tt, extend c (interferences nq nd)).
Proof.
  unfold interference_stage, interferences, when.
  destruct (1 <? nd) eqn:Hnd.
  - apply for_appends with (n := nq * nd); [|exact Hc].
    intros i c1 Hi Hc1. apply in_range in Hi.
    apply for_appends with (n := nq * nd); [|exact Hc1].
    intros d1 c2 Hd1 Hc2. apply in_range in Hd1.
    rewrite <- flat_map_single.
    apply for_appends with (n := nq * nd); [|exact Hc2].
    intros d2 c3 Hd2 Hc3. apply in_range2 in Hd2.
    unfold cz, index. apply gate2_appends; rewrite ?Hc3; nia.
  - apply Z.ltb_ge in Hnd. unfold ret.
    replace (flat_map _ (range nq)) with (@nil Instruction);
      [now rewrite extend_nil|].
    symmetry. apply flat_map_nil. intros i _.
    apply flat_map_nil. intros d1 Hd1. apply in_range in Hd1.
    rewrite range2_empty by lia. reflexivity.
Qed.
End Stages.

Lemma measure_appends (nq nd : Z) (qr cr : Register) (c : QuantumCircuit) :
  size qr = nq * nd -> size cr = nq * nd ->
  measure qr cr c = inr (tt, extend c (measurements nq nd)).
Proof.
  intros Hqr Hcr. unfold measure, measurements.
  rewrite Hqr, Hcr, Z.eqb_refl, <- flat_map_single.
  apply for_appends with (n := num_qubits c); [|reflexivity].
  intros k c' _ _. reflexivity.
Qed.

(** ** The built circuit *)

(** Whenever the registers can be created, the builder returns, and its
    circuit holds the five blocks one after the other. *)
Lemma build_returns (nq nd : Z) :
  0 <= nq * nd ->
  create_string_vibration_circuit nq nd =
    inr (mkCircuit (nq * nd) (nq * nd) (placements nq nd)).
Proof.
  intros HQ. unfold create_string_vibration_circuit, new_register.
  replace (nq * nd <? 0) with false by (symmetry; apply Z.ltb_ge; lia).
  set (qr := mkRegister (nq * nd) "string").
  set (cr := mkRegister (nq * nd) "measurement").
  set (c0 := new_circuit qr cr).
  assert (H0 : num_qubits c0 = nq * nd) by reflexivity.
  assert (Hext : forall xs, num_qubits (extend c0 xs) = nq * nd)
    by (intros xs; exact H0).
  assert (Hrun :
    (superposition_stage nq nd ;; coupling_stage nq nd ;;
     phase_stage nq nd ;; interference_stage nq nd ;; measure qr cr) c0
    = inr (tt, extend c0 (placements nq nd))).
  { unfold placements.
    apply bind_appends; [now apply superposition_stage_appends|].
    rewrite <- extend_extend.
    apply bind_appends; [now apply coupling_stage_appends|].
    rewrite <- extend_extend.
    apply bind_appends; [apply phase_stage_appends; rewrite !extend_extend; apply Hext|].
    rewrite <- extend_extend.
    apply bind_appends;
      [apply interference_stage_appends; rewrite !extend_extend; apply Hext|].
    rewrite <- extend_extend.
    now apply measure_appends. }
  rewrite Hrun. reflexivity.
Qed.

Lemma build_raises (nq nd : Z) :
  nq * nd < 0 -> create_string_vibration_circuit nq nd = inl CircuitError.
Proof.
  intros HQ. unfold create_string_vibration_circuit, new_register.
  replace (nq * nd <? 0) with true by (symmetry; apply Z.ltb_lt; lia).
  reflexivity.
Qed.

(** ** Kinds of the five blocks *)

Lemma stage_hadamards nq nd :
  Forall (fun i => stage_of i = 0%nat) (hadamards nq nd).
Proof. apply Forall_forall. intros i Hi. apply in_map_iff in Hi as [k [<- _]]. reflexivity. Qed.

Lemma stage_couplings nq nd :
  Forall (fun i => stage_of i = 1%nat) (couplings nq nd).
Proof.
  apply Forall_forall. intros i Hi.
  apply in_flat_map in Hi as [d [_ Hi]].
  apply in_map_iff in Hi as [k [<- _]]. reflexivity.
Qed.

Lemma stage_rotations nq nd :
  Forall (fun i => stage_of i = 2%nat) (rotations nq nd).
Proof. apply Forall_forall. intros i Hi. apply in_map_iff in Hi as [k [<- _]]. reflexivity. Qed.

Lemma stage_interferences nq nd :
  Forall (fun i => stage_of i = 3%nat) (interferences nq nd).
Proof.
  apply Forall_forall. intros i Hi.
  apply in_flat_map in Hi as [s [_ Hi]].
  apply in_flat_map in Hi as [d1 [_ Hi]].
  apply in_map_iff in Hi as [d2 [<- _]]. reflexivity.
Qed.

Lemma stage_measurements nq nd :
  Forall (fun i => stage_of i = 4%nat) (measurements nq nd).
Proof. apply Forall_forall. intros i Hi. apply in_map_iff in Hi as [k [<- _]]. reflexivity. Qed.

Lemma filter_block (s t : nat) (l : list Instruction) :
  Forall (fun i => stage_of i = t) l ->
  filter (is_stage s) l = if Nat.eqb t s then l else [].
Proof.
  induction 1 as [|i l Hi _ IH]; cbn.
  - now destruct (Nat.eqb t s).
  - unfold is_stage at 1. rewrite Hi, IH. now destruct (Nat.eqb t s).
Qed.

(** Filtering the built list by kind gives back the block of that kind. *)
Lemma stage_ops_placements (s : nat) (nq nd n m : Z) :
  stage_ops s (mkCircuit n m (placements nq nd)) =
    match s with
    | 0 => hadamards nq nd
    | 1 => couplings nq nd
    | 2 => rotations nq nd
    | 3 => interferences nq nd
    | 4 => measurements nq nd
    | _ => []
    end%nat.
Proof.
  unfold stage_ops, placements. cbn [data]. rewrite !filter_app.
  rewrite (filter_block s _ _ (stage_hadamards nq nd)).
  rewrite (filter_block s _ _ (stage_couplings nq nd)).
  rewrite (filter_block s _ _ (stage_rotations nq nd)).
  rewrite (filter_block s _ _ (stage_interferences nq nd)).
  rewrite (filter_block s _ _ (stage_measurements nq nd)).
  destruct s as [|[|[|[|[|s]]]]]; cbn [Nat.eqb app];
    rewrite ?app_nil_r; reflexivity.
Qed.

(** ** The index mapping *)

Lemma index_bounds (nq nd d i : Z) :
  0 <= d < nd -> 0 <= i < nq -> 0 <= index nq d i < nq * nd.
Proof. unfold index. nia. Qed.

Lemma index_div (nq d i : Z) : 0 <= i < nq -> index nq d i / nq = d.
Proof.
  intros Hi. unfold index. symmetry.
  apply Z.div_unique with (r := i); [left; exact Hi | lia].
Qed.

Lemma index_inj (nq d i d' i' : Z) :
  0 <= i < nq -> 0 <= i' < nq ->
  index nq d i = index nq d' i' -> d = d' /\ i = i'.
Proof.
  intros Hi Hi' Heq.
  assert (Hd : d = d').
  { rewrite <- (index_div nq d i Hi), <- (index_div nq d' i' Hi').
    now rewrite Heq. }
  split; [exact Hd|]. subst d'. unfold index in Heq. lia.
Qed.

(** C4: for [num_qubits >= 1] and [num_dimensions >= 1] the mapping
    (dimension, site) -> site + dimension * num_qubits, on sites below
    [num_qubits] and dimensions below [num_dimensions], is a bijection
    onto [0, Q) with Q = num_qubits * num_dimensions: every image lies in
    [0, Q), two pairs with the same image are equal, and every index of
    [0, Q) is the image of a pair.  For 4 sites it sends (0,0), (0,3),
    (1,0), (1,3) to 0, 3, 4, 7. *)
Theorem index_bijection (nq nd : Z) :
  1 <= nq -> 1 <= nd ->
  (forall d i, 0 <= d < nd -> 0 <= i < nq -> 0 <= index nq d i < nq * nd) /\
  (forall d i d' i',
      0 <= d < nd -> 0 <= i < nq -> 0 <= d' < nd -> 0 <= i' < nq ->
      index nq d i = index nq d' i' -> d = d' /\ i = i') /\
  (forall k, 0 <= k < nq * nd ->
      exists d i, 0 <= d < nd /\ 0 <= i < nq /\ index nq d i = k) /\
  index 4 0 0 = 0 /\ index 4 0 3 = 3 /\ index 4 1 0 = 4 /\ index 4 1 3 = 7.
Proof.
  intros Hq Hd.
  split; [intros d i Hdr Hir; now apply index_bounds|].
  split; [intros d i d' i' _ Hir _ Hir' Heq; now apply (index_inj nq)|].
  split; [|repeat split].
  intros k Hk. exists (k / nq), (k mod nq).
  pose proof (Z.mod_pos_bound k nq ltac:(lia)) as Hm.
  pose proof (Z.div_mod k nq ltac:(lia)) as Hdm.
  split; [|split; [exact Hm | unfold index; lia]].
  split; [apply Z.div_pos; lia | apply Z.div_lt_upper_bound; lia].
Qed.

Lemma index_bijection_witness : 0 <= index 4 1 3 < 4 * 2.
Proof.
  apply (proj1 (index_bijection 4 2 ltac:(lia) ltac:(lia))); lia.
Defined.

(** ** Counting helpers *)

Lemma NoDup_flat_map {A B} (f : A -> list B) (l : list A) :
  NoDup l ->
  (forall x, In x l -> NoDup (f x)) ->
  (forall x y b, In x l -> In y l -> In b (f x) -> In b (f y) -> x = y) ->
  NoDup (flat_map f l).
Proof.
  induction 1 as [|x l Hx Hl IH]; intros Hf Hdisj; cbn; [constructor|].
  apply NoDup_app.
  - apply Hf. now left.
  - apply IH.
    + intros y Hy. apply Hf. now right.
    + intros y z b Hy Hz. apply Hdisj; now right.
  - intros b Hb Hb'. apply in_flat_map in Hb' as [y [Hy Hby]].
    assert (x = y) by (apply (Hdisj x y b); auto; [now left | now right]).
    subst y. contradiction.
Qed.

Lemma once_of_NoDup (l : list Instruction) (op : Instruction) :
  NoDup l -> In op l -> count_occ Instruction_eq_dec l op = 1%nat.
Proof. intros Hl. now apply NoDup_count_occ'. Qed.

(** ** Coupling stage *)

Lemma in_couplings (nq nd : Z) (op : Instruction) :
  In op (couplings nq nd) <->
  exists d i, 0 <= d < nd /\ 0 <= i < nq - 1 /\
              op = CXGate (index nq d i) (index nq d (i + 1)).
Proof.
  unfold couplings. rewrite in_flat_map. split.
  - intros [d [Hd Hop]]. apply in_map_iff in Hop as [i [<- Hi]].
    apply in_range in Hd, Hi. now exists d, i.
  - intros [d [i [Hd [Hi ->]]]]. exists d. split; [now apply in_range|].
    apply in_map_iff. exists i. split; [reflexivity | now apply in_range].
Qed.

Lemma length_couplings (nq nd : Z) :
  1 <= nq -> 0 <= nd ->
  Z.of_nat (List.length (couplings nq nd)) = nd * (nq - 1).
Proof.
  intros Hq Hd. unfold couplings.
  rewrite flat_map_constant_length with (c := Z.to_nat (nq - 1)).
  - rewrite length_range. nia.
  - intros d _. now rewrite length_map, length_range.
Qed.

Lemma NoDup_couplings (nq nd : Z) : NoDup (couplings nq nd).
Proof.
  unfold couplings. apply NoDup_flat_map.
  - apply NoDup_range2.
  - intros d _. apply Injective_map_NoDup_in; [|apply NoDup_range2].
    intros i j _ _ Hij. injection Hij as Hij _. unfold index in Hij. lia.
  - intros d d' op _ _ Hop Hop'.
    apply in_map_iff in Hop as [i [<- Hi]].
    apply in_map_iff in Hop' as [j [Hj' Hj]].
    apply in_range in Hi, Hj. injection Hj' as Hc _.
    apply index_inj with (nq := nq) in Hc; [symmetry; tauto | lia | lia].
Qed.

(** C1: for [num_qubits >= 1] and [num_dimensions >= 1] the builder
    returns, and the controlled-NOT operations of its circuit are, in
    order, those of control index(d,i) and target index(d,i+1) for each
    dimension d (outer loop) and each site i in [0, num_qubits-1) (inner
    loop, increasing).  There are num_dimensions * (num_qubits - 1) of
    them, each adjacent pair occurs exactly once, nothing else occurs,
    and control and target always lie in the same dimension. *)
Theorem coupling_stage_placements (nq nd : Z) :
  1 <= nq -> 1 <= nd ->
  exists circuit,
    create_string_vibration_circuit nq nd = inr circuit /\
    stage_ops 1 circuit =
      flat_map (fun d =>
        map (fun i => CXGate (index nq d i) (index nq d (i + 1)))
            (range (nq - 1))) (range nd) /\
    Z.of_nat (List.length (stage_ops 1 circuit)) = nd * (nq - 1) /\
    (forall d i, 0 <= d < nd -> 0 <= i < nq - 1 ->
       count_occ Instruction_eq_dec (stage_ops 1 circuit)
         (CXGate (index nq d i) (index nq d (i + 1))) = 1%nat) /\
    (forall op, In op (stage_ops 1 circuit) ->
       exists d i, 0 <= d < nd /\ 0 <= i < nq - 1 /\
                   op = CXGate (index nq d i) (index nq d (i + 1))) /\
    (forall a b, In (CXGate a b) (stage_ops 1 circuit) ->
       b = a + 1 /\ a / nq = b / nq).
Proof.
  intros Hq Hd. eexists. split; [apply build_returns; nia|].
  rewrite stage_ops_placements.
  split; [reflexivity|].
  split; [apply length_couplings; lia|].
  split; [|split].
  - intros d i Hdr Hir. apply once_of_NoDup; [apply NoDup_couplings|].
    apply in_couplings. now exists d, i.
  - intros op Hop. now apply in_couplings.
  - intros a b Hab. apply in_couplings in Hab as [d [i [Hdr [Hir Heq]]]].
    injection Heq as -> ->.
    split; [unfold index; lia|].
    rewrite !index_div; [reflexivity | lia | lia].
Qed.

Lemma coupling_stage_placements_witness :
  exists circuit,
    create_string_vibration_circuit 4 2 = inr circuit /\
    stage_ops 1 circuit =
      [CXGate 0 1; CXGate 1 2; CXGate 2 3;
       CXGate 4 5; CXGate 5 6; CXGate 6 7].
Proof.
  destruct (coupling_stage_placements 4 2 ltac:(lia) ltac:(lia))
    as [circuit [Hb [Hops _]]].
  exists circuit. split; [exact Hb|]. rewrite Hops. reflexivity.
Defined.

(** ** Superposition, phase and measurement stages: one per qubit *)

Lemma NoDup_per_qubit (mk : Z -> Instruction) (n : Z) :
  (forall x y, mk x = mk y -> x = y) -> NoDup (map mk (range n)).
Proof.
  intros Hinj. apply Injective_map_NoDup_in; [|apply NoDup_range2].
  intros x y _ _. apply Hinj.
Qed.

Lemma in_per_qubit (mk : Z -> Instruction) (n : Z) (op : Instruction) :
  In op (map mk (range n)) <-> exists k, 0 <= k < n /\ op = mk k.
Proof.
  rewrite in_map_iff. split.
  - intros [k [<- Hk]]. apply in_range in Hk. now exists k.
  - intros [k [Hk ->]]. exists k. split; [reflexivity | now apply in_range].
Qed.

Lemma length_per_qubit (mk : Z -> Instruction) (n : Z) :
  0 <= n -> Z.of_nat (List.length (map mk (range n))) = n.
Proof. intros Hn. rewrite length_map, length_range. lia. Qed.

(** C3: for [num_qubits >= 1] and [num_dimensions >= 1] the builder
    returns a circuit whose measurement operations are, in order,
    measure qubit k into classical bit k for k = 0 .. Q-1, with
    Q = num_qubits * num_dimensions: there are Q of them, the measurement
    of every qubit of [0, Q) occurs exactly once, and every measurement
    present reads a qubit of [0, Q) into the slot of the same index. *)
Theorem measurement_stage_placements (nq nd : Z) :
  1 <= nq -> 1 <= nd ->
  exists circuit,
    create_string_vibration_circuit nq nd = inr circuit /\
    num_qubits circuit = nq * nd /\
    num_clbits circuit = nq * nd /\
    stage_ops 4 circuit = map (fun k => Measure k k) (range (nq * nd)) /\
    Z.of_nat (List.length (stage_ops 4 circuit)) = nq * nd /\
    (forall k, 0 <= k < nq * nd ->
       count_occ Instruction_eq_dec (stage_ops 4 circuit) (Measure k k)
       = 1%nat) /\
    (forall q c, In (Measure q c) (stage_ops 4 circuit) ->
       c = q /\ 0 <= q < nq * nd).
Proof.
  intros Hq Hd. eexists. split; [apply build_returns; nia|].
  rewrite stage_ops_placements. unfold measurements. cbn [num_qubits num_clbits].
  do 3 (split; [reflexivity|]).
  split; [apply length_per_qubit; nia|].
  split.
  - intros k Hk. apply once_of_NoDup.
    + apply NoDup_per_qubit. intros x y Hxy. now injection Hxy.
    + apply in_per_qubit. now exists k.
  - intros q c Hin. apply in_per_qubit in Hin as [k [Hk Heq]].
    injection Heq as -> ->. split; [reflexivity | exact Hk].
Qed.

Lemma measurement_stage_placements_witness :
  exists circuit,
    create_string_vibration_circuit 2 1 = inr circuit /\
    stage_ops 4 circuit = [Measure 0 0; Measure 1 1].
Proof.
  destruct (measurement_stage_placements 2 1 ltac:(lia) ltac:(lia))
    as [circuit [Hb [_ [_ [Hops _]]]]].
  exists circuit. split; [exact Hb|]. rewrite Hops. reflexivity.
Defined.

(** C6: for [num_qubits >= 1] and [num_dimensions >= 1] the builder
    returns a circuit whose phase rotations are, in order, one rotation
    on qubit k for k = 0 .. Q-1, all with the angle pi/4: there are Q of
    them, the rotation by pi/4 of every qubit of [0, Q) occurs exactly
    once, and every rotation present has the angle pi/4, whatever its
    qubit. *)
Theorem phase_stage_placements (nq nd : Z) :
  1 <= nq -> 1 <= nd ->
  exists circuit,
    create_string_vibration_circuit nq nd = inr circuit /\
    stage_ops 2 circuit = map (RZGate (PiOver 4)) (range (nq * nd)) /\
    Z.of_nat (List.length (stage_ops 2 circuit)) = nq * nd /\
    (forall k, 0 <= k < nq * nd ->
       count_occ Instruction_eq_dec (stage_ops 2 circuit)
         (RZGate (PiOver 4) k) = 1%nat) /\
    (forall theta q, In (RZGate theta q) (stage_ops 2 circuit) ->
       theta = PiOver 4 /\ 0 <= q < nq * nd).
Proof.
  intros Hq Hd. eexists. split; [apply build_returns; nia|].
  rewrite stage_ops_placements. unfold rotations, np_pi_div_4.
  split; [reflexivity|].
  split; [apply length_per_qubit; nia|].
  split.
  - intros k Hk. apply once_of_NoDup.
    + apply NoDup_per_qubit. intros x y Hxy. now injection Hxy.
    + apply in_per_qubit. now exists k.
  - intros theta q Hin. apply in_per_qubit in Hin as [k [Hk Heq]].
    injection Heq as -> ->. split; [reflexivity | exact Hk].
Qed.

Lemma phase_stage_placements_witness :
  exists circuit,
    create_string_vibration_circuit 1 2 = inr circuit /\
    stage_ops 2 circuit = [RZGate (PiOver 4) 0; RZGate (PiOver 4) 1].
Proof.
  destruct (phase_stage_placements 1 2 ltac:(lia) ltac:(lia))
    as [circuit [Hb [Hops _]]].
  exists circuit. split; [exact Hb|]. rewrite Hops. reflexivity.
Defined.

(** ** Interference stage *)

Lemma in_interferences (nq nd : Z) (op : Instruction) :
  In op (interferences nq nd) <->
  exists i d1 d2, 0 <= i < nq /\ 0 <= d1 < d2 /\ d2 < nd /\
                  op = CZGate (index nq d1 i) (index nq d2 i).
Proof.
  unfold interferences. rewrite in_flat_map. split.
  - intros [i [Hi Hop]]. apply in_flat_map in Hop as [d1 [Hd1 Hop]].
    apply in_map_iff in Hop as [d2 [<- Hd2]].
    apply in_range in Hi, Hd1. apply in_range2 in Hd2.
    exists i, d1, d2. repeat split; lia.
  - intros [i [d1 [d2 [Hi [Hd1 [Hd2 ->]]]]]].
    exists i. split; [now apply in_range|].
    apply in_flat_map. exists d1. split; [apply in_range; lia|].
    apply in_map_iff. exists d2. split; [reflexivity | apply in_range2; lia].
Qed.

(** The pairs [d1 < d2] below [nd] whose first component is below [m]. *)
Lemma length_pairs (g : Z -> Z -> Instruction) (nd : Z) (m : nat) :
  Z.of_nat m <= nd ->
  2 * Z.of_nat (List.length
        (flat_map (fun d1 => map (g d1) (range2 (d1 + 1) nd))
                  (range (Z.of_nat m))))
  = Z.of_nat m * (2 * nd - Z.of_nat m - 1).
Proof.
  induction m as [|m IH]; intros Hm; [reflexivity|].
  replace (Z.of_nat (S m)) with (Z.of_nat m + 1) in * by lia.
  rewrite range_succ by lia.
  rewrite flat_map_app, length_app. cbn [flat_map].
  rewrite app_nil_r, length_map, length_range2.
  specialize (IH ltac:(lia)). nia.
Qed.

Lemma length_all_pairs (g : Z -> Z -> Instruction) (nd : Z) :
  0 <= nd ->
  Z.of_nat (List.length
     (flat_map (fun d1 => map (g d1) (range2 (d1 + 1) nd)) (range nd)))
  = choose2 nd.
Proof.
  intros Hnd. pose proof (length_pairs g nd (Z.to_nat nd) ltac:(lia)) as H.
  rewrite Z2Nat.id in H by lia. unfold choose2.
  set (L := Z.of_nat _) in *.
  replace (nd * (nd - 1)) with (L * 2) by lia.
  now rewrite Z.div_mul.
Qed.

Lemma length_interferences (nq nd : Z) :
  0 <= nq -> 0 <= nd ->
  Z.of_nat (List.length (interferences nq nd)) = nq * choose2 nd.
Proof.
  intros Hq Hd. unfold interferences.
  rewrite flat_map_constant_length with (c := Z.to_nat (choose2 nd)).
  - rewrite length_range.
    assert (0 <= choose2 nd).
    { rewrite <- (length_all_pairs (fun _ _ => HGate 0) nd Hd). lia. }
    nia.
  - intros i _.
    rewrite <- (length_all_pairs
                  (fun d1 d2 => CZGate (index nq d1 i) (index nq d2 i)) nd Hd).
    now rewrite Nat2Z.id.
Qed.

(** C2: for [num_qubits >= 1] (and [num_dimensions >= 1]) the builder
    returns a circuit whose controlled-phase operations are, in order,
    those of control index(d1,i) and target index(d2,i), for each site i
    (outer loop, ascending) and each pair of dimensions d1 < d2 (inner
    loops, ascending lexicographically).  There are
    num_qubits * C(num_dimensions, 2) of them, none when
    [num_dimensions = 1], and an operation is present exactly when it
    links one site across two dimensions d1 < d2. *)
Theorem interference_stage_placements (nq nd : Z) :
  1 <= nq -> 1 <= nd ->
  exists circuit,
    create_string_vibration_circuit nq nd = inr circuit /\
    stage_ops 3 circuit =
      flat_map (fun i =>
        flat_map (fun d1 =>
          map (fun d2 => CZGate (index nq d1 i) (index nq d2 i))
              (range2 (d1 + 1) nd))
          (range nd))
        (range nq) /\
    Z.of_nat (List.length (stage_ops 3 circuit)) = nq * choose2 nd /\
    (nd = 1 -> stage_ops 3 circuit = []) /\
    (forall op, In op (stage_ops 3 circuit) <->
       exists i d1 d2, 0 <= i < nq /\ 0 <= d1 < d2 /\ d2 < nd /\
                       op = CZGate (index nq d1 i) (index nq d2 i)).
Proof.
  intros Hq Hd. eexists. split; [apply build_returns; nia|].
  rewrite stage_ops_placements.
  split; [reflexivity|].
  split; [apply length_interferences; lia|].
  split; [|intros op; apply in_interferences].
  intros ->. apply length_zero_iff_nil.
  pose proof (length_interferences nq 1 ltac:(lia) ltac:(lia)) as H.
  change (choose2 1) with 0 in H. lia.
Qed.

Lemma interference_stage_placements_witness :
  exists circuit,
    create_string_vibration_circuit 2 3 = inr circuit /\
    stage_ops 3 circuit =
      [CZGate 0 2; CZGate 0 4; CZGate 2 4;
       CZGate 1 3; CZGate 1 5; CZGate 3 5] /\
    Z.of_nat (List.length (stage_ops 3 circuit)) = 2 * 3.
Proof.
  destruct (interference_stage_placements 2 3 ltac:(lia) ltac:(lia))
    as [circuit [Hb [Hops [Hlen _]]]].
  exists circuit. split; [exact Hb|].
  split; [rewrite Hops; reflexivity | exact Hlen].
Defined.

(** ** Order of the stages *)

Lemma sorted_block_app (s : nat) (l1 l2 : list Instruction) :
  Forall (fun i => stage_of i = s) l1 ->
  Forall (fun i => (s <= stage_of i)%nat) l2 ->
  StronglySorted stage_le l2 ->
  StronglySorted stage_le (l1 ++ l2).
Proof.
  intros H1 H2 Hs. induction H1 as [|x l1 Hx Hl1 IH]; cbn; [exact Hs|].
  constructor; [exact IH|].
  apply Forall_app. split.
  - eapply Forall_impl; [|exact Hl1]. intros y Hy. unfold stage_le. cbn beta in Hy. lia.
  - eapply Forall_impl; [|exact H2]. intros y Hy. unfold stage_le. cbn beta in Hy. lia.
Qed.

Lemma stage_at_least (s t : nat) (l : list Instruction) :
  (s <= t)%nat -> Forall (fun i => stage_of i = t) l ->
  Forall (fun i => (s <= stage_of i)%nat) l.
Proof.
  intros Hst Hl. eapply Forall_impl; [|exact Hl].
  intros i Hi. cbn beta in Hi. lia.
Qed.

Lemma placements_sorted (nq nd : Z) :
  StronglySorted stage_le (placements nq nd).
Proof.
  pose proof (stage_hadamards nq nd) as H0.
  pose proof (stage_couplings nq nd) as H1.
  pose proof (stage_rotations nq nd) as H2.
  pose proof (stage_interferences nq nd) as H3.
  pose proof (stage_measurements nq nd) as H4.
  unfold placements.
  assert (Hlow : forall s t l l',
             (s <= t)%nat -> Forall (fun i => stage_of i = t) l ->
             Forall (fun i => (s <= stage_of i)%nat) l' ->
             Forall (fun i => (s <= stage_of i)%nat) (l ++ l')).
  { intros s t l l' Hst Hl Hl'. apply Forall_app. split; [|exact Hl'].
    now apply stage_at_least with (t := t). }
  apply sorted_block_app with (s := 0%nat); [exact H0 | |].
  { apply Hlow with (t := 1%nat); [lia | exact H1|].
    apply Hlow with (t := 2%nat); [lia | exact H2|].
    apply Hlow with (t := 3%nat); [lia | exact H3|].
    now apply stage_at_least with (t := 4%nat); [lia|]. }
  apply sorted_block_app with (s := 1%nat); [exact H1 | |].
  { apply Hlow with (t := 2%nat); [lia | exact H2|].
    apply Hlow with (t := 3%nat); [lia | exact H3|].
    now apply stage_at_least with (t := 4%nat); [lia|]. }
  apply sorted_block_app with (s := 2%nat); [exact H2 | |].
  { apply Hlow with (t := 3%nat); [lia | exact H3|].
    now apply stage_at_least with (t := 4%nat); [lia|]. }
  apply sorted_block_app with (s := 3%nat); [exact H3 | |].
  { now apply stage_at_least with (t := 4%nat); [lia|]. }
  rewrite <- (app_nil_r (measurements nq nd)).
  apply sorted_block_app with (s := 4%nat); [exact H4 | constructor | constructor].
Qed.

(** C5: for [num_qubits >= 1] and [num_dimensions >= 1] the instruction
    list of the built circuit is the concatenation of five blocks, in
    this order: all its Hadamard operations, all its controlled-NOT
    operations, all its phase rotations, all its controlled-phase
    operations, all its measurements; along the list the stage number of
    an operation never decreases. *)
Theorem stages_in_order (nq nd : Z) :
  1 <= nq -> 1 <= nd ->
  exists circuit,
    create_string_vibration_circuit nq nd = inr circuit /\
    data circuit =
      stage_ops 0 circuit ++ stage_ops 1 circuit ++ stage_ops 2 circuit ++
      stage_ops 3 circuit ++ stage_ops 4 circuit /\
    StronglySorted stage_le (data circuit).
Proof.
  intros Hq Hd. eexists. split; [apply build_returns; nia|].
  rewrite !stage_ops_placements. cbn [data].
  split; [reflexivity | apply placements_sorted].
Qed.

Lemma stages_in_order_witness :
  exists circuit,
    create_string_vibration_circuit 2 2 = inr circuit /\
    data circuit =
      [HGate 0; HGate 1; HGate 2; HGate 3] ++
      [CXGate 0 1; CXGate 2 3] ++
      [RZGate (PiOver 4) 0; RZGate (PiOver 4) 1;
       RZGate (PiOver 4) 2; RZGate (PiOver 4) 3] ++
      [CZGate 0 2; CZGate 1 3] ++
      [Measure 0 0; Measure 1 1; Measure 2 2; Measure 3 3].
Proof.
  destruct (stages_in_order 2 2 ltac:(lia) ltac:(lia))
    as [circuit [Hb [Hdata _]]].
  exists circuit. split; [exact Hb|].
  rewrite Hdata. vm_compute in Hb. injection Hb as <-. reflexivity.
Defined.

(** ** Arguments the builder accepts *)

(** C7, as the code behaves: the builder checks neither argument.  It
    raises (the register constructor's error, no circuit being returned)
    exactly when the product num_qubits * num_dimensions is negative; for
    every other pair of integers, zero and two negative arguments
    included, it returns the circuit on that many qubits. *)
Theorem build_fails_only_on_negative_size (nq nd : Z) :
  (nq * nd < 0 /\
   create_string_vibration_circuit nq nd = inl CircuitError) \/
  (0 <= nq * nd /\
   create_string_vibration_circuit nq nd =
     inr (mkCircuit (nq * nd) (nq * nd) (placements nq nd))).
Proof.
  destruct (Z.lt_ge_cases (nq * nd) 0) as [Hneg | Hpos].
  - left. split; [exact Hneg | now apply build_raises].
  - right. split; [exact Hpos | now apply build_returns].
Qed.

(** C7 does not hold as stated: with [num_qubits = -1] and
    [num_dimensions = -2], both below 1, the registers have size 2 and
    the builder returns a circuit (no loop over dimensions runs). *)
Lemma build_accepts_arguments_below_one :
  create_string_vibration_circuit (-1) (-2) =
    inr (mkCircuit 2 2
           [HGate 0; HGate 1;
            RZGate (PiOver 4) 0; RZGate (PiOver 4) 1;
            Measure 0 0; Measure 1 1]).
Proof. reflexivity. Qed.

(** ** The runner *)

(** C10: whatever the simulator, [simulate_string_theory] makes exactly
    one request to it: the circuit built for 4 sites and 2 dimensions
    (8 qubits), on the [qasm_simulator] backend, with 1000 shots; what
    the simulator answers is what the runner returns.  The runner has no
    argument through which these values could be changed. *)
Theorem simulate_string_theory_request
        (simulator : request -> result Counts) :
  exists circuit,
    create_string_vibration_circuit 4 2 = inr circuit /\
    num_qubits circuit = 8 /\
    interp simulator simulate_string_theory =
      ([Execute circuit "qasm_simulator" 1000],
       simulator (Execute circuit "qasm_simulator" 1000)).
Proof.
  unfold simulate_string_theory.
  rewrite (build_returns 4 2 ltac:(lia)).
  eexists. split; [reflexivity|]. split; [reflexivity|].
  cbn [interp]. now destruct (simulator _).
Qed.

(** ** The analyzer *)

Lemma fold_add_shift (xs : list Z) (a : Z) :
  fold_left Z.add xs a = a + fold_left Z.add xs 0.
Proof.
  revert a. induction xs as [|x xs IH]; intros a; cbn; [lia|].
  rewrite (IH (a + x)), (IH x). lia.
Qed.

Lemma py_sum_cons (x : Z) (xs : list Z) : py_sum (x :: xs) = x + py_sum xs.
Proof. unfold py_sum. cbn. apply fold_add_shift. Qed.

Lemma py_sum_bounds (xs : list Z) :
  Forall (fun x => 0 <= x) xs ->
  0 <= py_sum xs /\ (forall x, In x xs -> x <= py_sum xs).
Proof.
  induction 1 as [|x xs Hx _ [IH0 IH]].
  - split; [reflexivity | intros x []].
  - rewrite py_sum_cons. split; [lia|].
    intros y [<- | Hy]; [lia | specialize (IH y Hy); lia].
Qed.

(** The running maximum ends on an item seen, whose key bounds every
    key seen. *)
Lemma max_loop_spec {A} (key : A -> Z) (xs : list A) (best : A) :
  let m := max_loop key best xs in
  In m (best :: xs) /\ forall x, In x (best :: xs) -> key x <= key m.
Proof.
  revert best. induction xs as [|x xs IH]; intros best; cbn [max_loop].
  - split; [now left | intros y [<- | []]; lia].
  - destruct (key best <? key x) eqn:Hlt.
    + apply Z.ltb_lt in Hlt. destruct (IH x) as [Hin Hmax].
      split; [now right|].
      intros y [<- | Hy]; [|now apply Hmax].
      specialize (Hmax x (or_introl eq_refl)). lia.
    + apply Z.ltb_ge in Hlt. destruct (IH best) as [Hin Hmax].
      split; [destruct Hin as [<- | Hin]; [now left | now right; right]|].
      intros y [<- | [<- | Hy]].
      * apply Hmax. now left.
      * specialize (Hmax best (or_introl eq_refl)). lia.
      * apply Hmax. now right.
Qed.

(** The largest value is the value of the item with the largest value. *)
Lemma max_loop_values (xs : Counts) (best : string * Z) :
  max_loop (fun v => v) (snd best) (map snd xs) =
    snd (max_loop snd best xs).
Proof.
  revert best. induction xs as [|x xs IH]; intros best; cbn; [reflexivity|].
  destruct (snd best <? snd x); apply IH.
Qed.

(** C8: on an empty mapping the analyzer raises ([max] of an empty
    sequence is a [ValueError], Python's invalid-argument exception); it
    returns no analysis at all. *)
Theorem analyze_results_empty :
  analyze_results [] = inl ValueError /\
  forall a, analyze_results [] <> inr a.
Proof. split; [reflexivity | intros a Ha; discriminate Ha]. Qed.

(** C9: on the mapping 00 -> 700, 11 -> 300 the analyzer returns total
    1000, 2 unique states, most common state 00 and highest probability
    7/10.  On every non-empty mapping of non-negative counts whose total
    is positive it returns an analysis holding the total, the number of
    keys, a key carrying the largest count, and as highest probability
    that largest count divided by the total, which is above 0 and at
    most 1. *)
Theorem analyze_results_summary :
  analyze_results [("00", 700); ("11", 300)]%string =
    inr (mkAnalysis 1000 2 "00" (7 # 10)) /\
  forall counts : Counts,
    counts <> [] ->
    Forall (fun kv => 0 <= snd kv) counts ->
    0 < py_sum (map snd counts) ->
    exists a m,
      analyze_results counts = inr a /\
      total_measurements a = py_sum (map snd counts) /\
      unique_states a = Z.of_nat (List.length counts) /\
      In (most_common_state a, m) counts /\
      (forall kv, In kv counts -> snd kv <= m) /\
      (highest_probability a ==
         inject_Z m / inject_Z (total_measurements a))%Q /\
      (0 < highest_probability a)%Q /\
      (highest_probability a <= 1)%Q.
Proof.
  split; [reflexivity|].
  intros [|best xs] Hne Hpos Htot; [contradiction|].
  unfold analyze_results. cbn [py_max map] in *.
  rewrite max_loop_values.
  destruct (max_loop_spec snd xs best) as [Hin Hmax].
  set (top := max_loop snd best xs) in *.
  set (total := py_sum (snd best :: map snd xs)) in *.
  assert (Hvals : Forall (fun x => 0 <= x) (map snd (best :: xs))).
  { apply Forall_map. exact Hpos. }
  destruct (py_sum_bounds _ Hvals) as [_ Hle]. cbn [map] in Hle. fold total in Hle.
  assert (Htop : snd top <= total).
  { apply Hle. change (In (snd top) (map snd (best :: xs))). now apply in_map. }
  assert (Htop0 : 0 < snd top).
  { destruct (Z.lt_ge_cases 0 (snd top)) as [|Hz]; [assumption|].
    exfalso.
    assert (Hall : Forall (fun x => x = 0) (map snd (best :: xs))).
    { apply Forall_map, Forall_forall. intros kv Hkv.
      pose proof (Hmax kv Hkv).
      pose proof (proj1 (Forall_forall _ _) Hpos kv Hkv) as Hk. cbn beta in Hk. lia. }
    assert (Hz0 : py_sum (map snd (best :: xs)) = 0).
    { clear -Hall. induction Hall as [|x l Hx _ IH]; [reflexivity|].
      rewrite py_sum_cons. lia. }
    cbn [map] in Hz0. fold total in Hz0. lia. }
  unfold py_truediv.
  replace (total =? 0) with false by (symmetry; apply Z.eqb_neq; lia).
  eexists. exists (snd top). split; [reflexivity|].
  cbn [total_measurements unique_states most_common_state
       highest_probability].
  split; [reflexivity|]. split; [reflexivity|].
  split; [rewrite <- surjective_pairing; exact Hin|].
  split; [exact Hmax|].
  rewrite Qred_correct.
  split; [reflexivity|].
  clearbody total. destruct total as [|p|p]; try lia.
  rewrite <- Qmake_Qdiv. unfold Qlt, Qle. cbn. lia.
Qed.

Lemma analyze_results_summary_witness :
  exists a,
    analyze_results [("0", 1); ("1", 3)]%string = inr a /\
    most_common_state a = "1"%string /\
    (highest_probability a == 3 # 4)%Q.
Proof.
  assert (Hne : [("0", 1); ("1", 3)]%string <> []) by discriminate.
  assert (Hpos : Forall (fun kv : string * Z => 0 <= snd kv)
                        [("0", 1); ("1", 3)]%string)
    by (repeat constructor; cbn; lia).
  assert (Htot : 0 < py_sum (map snd [("0", 1); ("1", 3)]%string))
    by reflexivity.
  destruct (proj2 analyze_results_summary _ Hne Hpos Htot)
    as [a [m [Ha _]]].
  exists a. vm_compute in Ha. injection Ha as <-.
  split; [reflexivity | split; reflexivity].
Defined.

(** * Further properties of the builder *)

(** When the builder returns, the product of its arguments is not
    negative and the circuit is the five blocks on that many qubits. *)
Lemma build_inv (nq nd : Z) (circuit : QuantumCircuit) :
  create_string_vibration_circuit nq nd = inr circuit ->
  0 <= nq * nd /\ circuit = mkCircuit (nq * nd) (nq * nd) (placements nq nd).
Proof.
  intros Hb. destruct (Z.lt_ge_cases (nq * nd) 0) as [Hneg | Hpos].
  - rewrite (build_raises nq nd Hneg) in Hb. discriminate Hb.
  - rewrite (build_returns nq nd Hpos) in Hb. injection Hb as <-. now split.
Qed.

(** X1: whenever the builder returns, the Hadamard operations of its
    circuit are, in order, one on qubit k for k = 0 .. Q-1 with
    Q = num_qubits * num_dimensions; each of these occurs exactly once
    and no other qubit receives one. *)
Theorem superposition_stage_placements (nq nd : Z)
        (circuit : QuantumCircuit) :
  create_string_vibration_circuit nq nd = inr circuit ->
  stage_ops 0 circuit = map HGate (range (nq * nd)) /\
  Z.of_nat (List.length (stage_ops 0 circuit)) = nq * nd /\
  (forall k, 0 <= k < nq * nd ->
     count_occ Instruction_eq_dec (stage_ops 0 circuit) (HGate k) = 1%nat) /\
  (forall q, In (HGate q) (stage_ops 0 circuit) -> 0 <= q < nq * nd).
Proof.
  intros Hb. apply build_inv in Hb as [HQ ->].
  rewrite stage_ops_placements. unfold hadamards.
  split; [reflexivity|].
  split; [now apply length_per_qubit|].
  split.
  - intros k Hk. apply once_of_NoDup.
    + apply NoDup_per_qubit. intros x y Hxy. now injection Hxy.
    + apply in_per_qubit. now exists k.
  - intros q Hin. apply in_per_qubit in Hin as [k [Hk Heq]].
    now injection Heq as ->.
Qed.

Lemma superposition_stage_placements_witness :
  stage_ops 0 (mkCircuit 3 3 (placements 3 1)) =
    [HGate 0; HGate 1; HGate 2].
Proof.
  assert (Hb : create_string_vibration_circuit 3 1 =
               inr (mkCircuit 3 3 (placements 3 1)))
    by (vm_compute; reflexivity).
  rewrite (proj1 (superposition_stage_placements 3 1 _ Hb)).
  reflexivity.
Defined.

(** X2: whenever the builder returns, every instruction of its circuit
    acts on qubits of the circuit, a two-qubit gate on two different
    ones, and every measurement writes a classical bit of the circuit. *)
Theorem built_operands_ok (nq nd : Z) (circuit : QuantumCircuit) :
  create_string_vibration_circuit nq nd = inr circuit ->
  num_qubits circuit = nq * nd /\
  num_clbits circuit = nq * nd /\
  Forall (operands_ok circuit) (data circuit).
Proof.
  intros Hb. apply build_inv in Hb as [HQ ->]. cbn [num_qubits num_clbits data].
  split; [reflexivity|]. split; [reflexivity|].
  unfold placements. repeat (apply Forall_app; split);
    apply Forall_forall; intros op Hop.
  - apply in_per_qubit in Hop as [k [Hk ->]]. exact Hk.
  - apply in_couplings in Hop as [d [i [Hd [Hi ->]]]].
    unfold operands_ok, index. cbn [num_qubits]. nia.
  - apply in_per_qubit in Hop as [k [Hk ->]]. exact Hk.
  - apply in_interferences in Hop as [i [d1 [d2 [Hi [Hd1 [Hd2 ->]]]]]].
    unfold operands_ok, index. cbn [num_qubits]. nia.
  - apply in_per_qubit in Hop as [k [Hk ->]].
    cbn. lia.
Qed.

Lemma built_operands_ok_witness :
  Forall (operands_ok (mkCircuit 8 8 (placements 4 2))) (placements 4 2).
Proof.
  assert (Hb : create_string_vibration_circuit 4 2 =
               inr (mkCircuit 8 8 (placements 4 2)))
    by (vm_compute; reflexivity).
  exact (proj2 (proj2 (built_operands_ok 4 2 _ Hb))).
Defined.

(** X3: for [num_qubits >= 1] and [num_dimensions >= 1] the built
    circuit holds 3 * Q + num_dimensions * (num_qubits - 1) +
    num_qubits * C(num_dimensions, 2) instructions, Q being
    num_qubits * num_dimensions. *)
Theorem built_instruction_count (nq nd : Z) :
  1 <= nq -> 1 <= nd ->
  exists circuit,
    create_string_vibration_circuit nq nd = inr circuit /\
    Z.of_nat (List.length (data circuit)) =
      3 * (nq * nd) + nd * (nq - 1) + nq * choose2 nd.
Proof.
  intros Hq Hd. eexists. split; [apply build_returns; nia|].
  cbn [data]. unfold placements. rewrite !length_app, !Nat2Z.inj_add.
  rewrite length_couplings, length_interferences by lia.
  unfold hadamards, rotations, measurements.
  rewrite !length_per_qubit by nia. lia.
Qed.

Lemma built_instruction_count_witness :
  exists circuit,
    create_string_vibration_circuit 4 2 = inr circuit /\
    Z.of_nat (List.length (data circuit)) = 34.
Proof.
  destruct (built_instruction_count 4 2 ltac:(lia) ltac:(lia))
    as [circuit [Hb Hlen]].
  exists circuit. split; [exact Hb|]. rewrite Hlen. reflexivity.
Defined.

(** Two interference operations with sites below [nq] that are equal
    come from the same site and the same pair of dimensions. *)
Lemma interference_inj (nq i d1 d2 j e1 e2 : Z) :
  0 <= i < nq -> 0 <= j < nq ->
  CZGate (index nq d1 i) (index nq d2 i) =
    CZGate (index nq e1 j) (index nq e2 j) ->
  i = j /\ d1 = e1 /\ d2 = e2.
Proof.
  intros Hi Hj Heq. injection Heq as Hc Ht.
  apply index_inj in Hc; [|assumption..].
  apply index_inj in Ht; [|assumption..].
  tauto.
Qed.

Lemma NoDup_interferences (nq nd : Z) : NoDup (interferences nq nd).
Proof.
  unfold interferences. apply NoDup_flat_map; [apply NoDup_range2 | |].
  - intros i Hi. apply in_range in Hi.
    apply NoDup_flat_map; [apply NoDup_range2 | |].
    + intros d1 _. apply Injective_map_NoDup_in; [|apply NoDup_range2].
      intros d2 e2 _ _ Heq.
      now apply interference_inj in Heq as [_ [_ Heq]].
    + intros d1 e1 op _ _ Hop Hop'.
      apply in_map_iff in Hop as [d2 [<- _]].
      apply in_map_iff in Hop' as [e2 [Heq _]].
      apply interference_inj in Heq as [_ [Heq _]]; [now symmetry | |];
        assumption.
  - intros i j op Hi Hj Hop Hop'. apply in_range in Hi, Hj.
    apply in_flat_map in Hop as [d1 [_ Hop]].
    apply in_map_iff in Hop as [d2 [<- _]].
    apply in_flat_map in Hop' as [e1 [_ Hop']].
    apply in_map_iff in Hop' as [e2 [Heq _]].
    apply interference_inj in Heq as [Heq _]; [now symmetry | |];
      assumption.
Qed.

(** X4: whenever the builder returns, every controlled-phase operation
    of its circuit joins two qubits with the same site (same remainder
    modulo num_qubits) in dimensions d1 < d2 (quotients by num_qubits),
    and the operation for a site and a pair d1 < d2 occurs exactly
    once. *)
Theorem interference_links_same_site (nq nd : Z)
        (circuit : QuantumCircuit) :
  create_string_vibration_circuit nq nd = inr circuit ->
  (forall a b, In (CZGate a b) (stage_ops 3 circuit) ->
     a mod nq = b mod nq /\ 0 <= a / nq < b / nq /\ b / nq < nd) /\
  (forall i d1 d2, 0 <= i < nq -> 0 <= d1 < d2 -> d2 < nd ->
     count_occ Instruction_eq_dec (stage_ops 3 circuit)
       (CZGate (index nq d1 i) (index nq d2 i)) = 1%nat).
Proof.
  intros Hb. apply build_inv in Hb as [HQ ->].
  rewrite stage_ops_placements. split.
  - intros a b Hin.
    apply in_interferences in Hin as [i [d1 [d2 [Hi [Hd1 [Hd2 Heq]]]]]].
    injection Heq as -> ->. rewrite !index_div by assumption.
    split; [|lia]. unfold index.
    rewrite !Z.mod_add by lia. reflexivity.
  - intros i d1 d2 Hi Hd1 Hd2. apply once_of_NoDup.
    + apply NoDup_interferences.
    + apply in_interferences. now exists i, d1, d2.
Qed.

Lemma interference_links_same_site_witness :
  count_occ Instruction_eq_dec
    (stage_ops 3 (mkCircuit 8 8 (placements 4 2)))
    (CZGate (index 4 0 3) (index 4 1 3)) = 1%nat.
Proof.
  assert (Hb : create_string_vibration_circuit 4 2 =
               inr (mkCircuit 8 8 (placements 4 2)))
    by (vm_compute; reflexivity).
  apply (proj2 (interference_links_same_site 4 2 _ Hb)); lia.
Defined.

(** X5: whenever the builder returns, its circuit has no controlled-NOT
    exactly when there is no dimension or at most one site
    ([num_dimensions <= 0] or [num_qubits <= 1]), and no
    controlled-phase exactly when there is no site or at most one
    dimension ([num_qubits <= 0] or [num_dimensions <= 1]). *)
Theorem entangling_gates_absent (nq nd : Z) (circuit : QuantumCircuit) :
  create_string_vibration_circuit nq nd = inr circuit ->
  (stage_ops 1 circuit = [] <-> nd <= 0 \/ nq <= 1) /\
  (stage_ops 3 circuit = [] <-> nq <= 0 \/ nd <= 1).
Proof.
  intros Hb. apply build_inv in Hb as [HQ ->].
  rewrite !stage_ops_placements. split; split.
  - intros Hnil.
    destruct (Z.le_gt_cases nd 0) as [|Hd]; [now left|].
    destruct (Z.le_gt_cases nq 1) as [|Hq]; [now right|].
    exfalso.
    assert (Hin : In (CXGate (index nq 0 0) (index nq 0 (0 + 1)))
                     (couplings nq nd))
      by (apply in_couplings; exists 0, 0; repeat split; lia).
    rewrite Hnil in Hin. exact Hin.
  - intros Hor. destruct (couplings nq nd) as [|op l] eqn:Hl; [reflexivity|].
    assert (Hin : In op (couplings nq nd)) by (rewrite Hl; now left).
    apply in_couplings in Hin as [d [i [Hd [Hi _]]]]. lia.
  - intros Hnil.
    destruct (Z.le_gt_cases nq 0) as [|Hq]; [now left|].
    destruct (Z.le_gt_cases nd 1) as [|Hd]; [now right|].
    exfalso.
    assert (Hin : In (CZGate (index nq 0 0) (index nq 1 0))
                     (interferences nq nd))
      by (apply in_interferences; exists 0, 0, 1; repeat split; lia).
    rewrite Hnil in Hin. exact Hin.
  - intros Hor. destruct (interferences nq nd) as [|op l] eqn:Hl;
      [reflexivity|].
    assert (Hin : In op (interferences nq nd)) by (rewrite Hl; now left).
    apply in_interferences in Hin as [i [d1 [d2 [Hi [Hd1 [Hd2 _]]]]]]. lia.
Qed.

Lemma entangling_gates_absent_witness :
  stage_ops 1 (mkCircuit 3 3 (placements 1 3)) = [] /\
  stage_ops 3 (mkCircuit 3 3 (placements 3 1)) = [].
Proof.
  assert (Hb : create_string_vibration_circuit 1 3 =
               inr (mkCircuit 3 3 (placements 1 3)))
    by (vm_compute; reflexivity).
  assert (Hb' : create_string_vibration_circuit 3 1 =
                inr (mkCircuit 3 3 (placements 3 1)))
    by (vm_compute; reflexivity).
  split.
  - apply (proj1 (entangling_gates_absent 1 3 _ Hb)). right. lia.
  - apply (proj2 (entangling_gates_absent 3 1 _ Hb')). right. lia.
Defined.

(** * Further properties of the analyzer *)


(** What [max(counts.items(), key=...)] returns is an item of the
    mapping whose count bounds every count. *)
Lemma py_max_spec (counts : Counts) (kv : string * Z) :
  py_max snd counts = inr kv ->
  In kv counts /\ forall x, In x counts -> snd x <= snd kv.
Proof.
  destruct counts as [|best xs]; [discriminate|].
  cbn [py_max]. intros Heq. injection Heq as <-.
  apply max_loop_spec.
Qed.

Lemma py_max_nonempty (counts : Counts) :
  counts <> [] -> exists kv, py_max snd counts = inr kv.
Proof.
  destruct counts as [|best xs]; [intros Hne; now contradiction Hne|].
  intros _. eexists. reflexivity.
Qed.

(** The analysis, once the most common item is known and the total is
    not zero. *)
Lemma analyze_results_eq (counts : Counts) (kv : string * Z) :
  py_max snd counts = inr kv ->
  py_sum (map snd counts) <> 0 ->
  analyze_results counts =
    inr (mkAnalysis (py_sum (map snd counts))
                    (Z.of_nat (List.length counts))
                    (fst kv)
                    (Qred (inject_Z (snd kv) /
                           inject_Z (py_sum (map snd counts))))).
Proof.
  destruct counts as [|best xs]; [discriminate|].
  intros Hmax Hnz. unfold analyze_results, py_truediv.
  rewrite Hmax. cbn [py_max map] in *. rewrite max_loop_values.
  injection Hmax as Hmax. rewrite Hmax.
  replace (_ =? 0) with false by (symmetry; now apply Z.eqb_neq).
  reflexivity.
Qed.






Lemma py_sum_perm (xs ys : list Z) :
  Permutation xs ys -> py_sum xs = py_sum ys.
Proof.
  induction 1 as [|x xs ys _ IH|x y xs|xs ys zs _ IH1 _ IH2].
  - reflexivity.
  - rewrite !py_sum_cons. lia.
  - rewrite !py_sum_cons. lia.
  - congruence.
Qed.

(** X8: the insertion order of the mapping does not matter to the total,
    the number of unique states or the highest probability: on two
    mappings holding the same items in a different order the analyzer
    raises the same exception, or returns analyses that agree on these
    three fields. *)
Theorem analyze_results_order_independent (counts counts' : Counts) :
  Permutation counts counts' ->
  match analyze_results counts, analyze_results counts' with
  | inr a, inr a' =>
      total_measurements a = total_measurements a' /\
      unique_states a = unique_states a' /\
      highest_probability a = highest_probability a'
  | inl e, inl e' => e = e'
  | _, _ => False
  end.
Proof.
  intros Hperm.
  assert (Hsum : py_sum (map snd counts) = py_sum (map snd counts'))
    by (apply py_sum_perm; now apply Permutation_map).
  assert (Hlen : List.length counts = List.length counts')
    by now apply Permutation_length.
  destruct counts as [|b xs].
  - apply Permutation_nil in Hperm. subst counts'. reflexivity.
  - destruct counts' as [|b' xs'];
      [apply Permutation_sym, Permutation_nil in Hperm; discriminate|].
    destruct (py_max_nonempty (b :: xs) ltac:(discriminate)) as [kv Hkv].
    destruct (py_max_nonempty (b' :: xs') ltac:(discriminate)) as [kv' Hkv'].
    destruct (Z.eq_dec (py_sum (map snd (b :: xs))) 0) as [Hz | Hnz].
    + assert (He : forall l, l <> [] -> py_sum (map snd l) = 0 ->
                     analyze_results l = inl ZeroDivisionError).
      { intros [|c l] Hne Hl; [now contradiction Hne|].
        unfold analyze_results, py_truediv. cbn [py_max map] in *.
        now rewrite Hl. }
      rewrite (He (b :: xs)), (He (b' :: xs')); try discriminate;
        [reflexivity | now rewrite <- Hsum | assumption].
    + rewrite (analyze_results_eq _ _ Hkv Hnz).
      rewrite (analyze_results_eq _ _ Hkv') by now rewrite <- Hsum.
      cbn [total_measurements unique_states highest_probability].
      apply py_max_spec in Hkv as [Hin Hmax].
      apply py_max_spec in Hkv' as [Hin' Hmax'].
      assert (Hm : snd kv = snd kv').
      { apply Z.le_antisymm.
        - apply Hmax'. now apply (Permutation_in _ Hperm).
        - apply Hmax. now apply (Permutation_in _ (Permutation_sym Hperm)). }
      rewrite Hsum, Hlen, Hm. repeat split.
Qed.

Lemma analyze_results_order_independent_witness :
  match analyze_results [("00", 700); ("11", 300)]%string,
        analyze_results [("11", 300); ("00", 700)]%string with
  | inr a, inr a' =>
      total_measurements a = total_measurements a' /\
      unique_states a = unique_states a' /\
      highest_probability a = highest_probability a'
  | inl e, inl e' => e = e'
  | _, _ => False
  end.
Proof.
  apply analyze_results_order_independent. apply perm_swap.
Defined.

Lemma py_sum_le_max (xs : list Z) (m : Z) :
  (forall x, In x xs -> x <= m) ->
  py_sum xs <= m * Z.of_nat (List.length xs).
Proof.
  induction xs as [|x xs IH]; intros Hm; [cbn; lia|].
  rewrite py_sum_cons. cbn [List.length].
  specialize (IH (fun y Hy => Hm y (or_intror Hy))).
  specialize (Hm x (or_introl eq_refl)). lia.
Qed.



(** * The whole program *)

(** What [run_simulation] does, by what the simulator answers. *)
Lemma run_simulation_exec (simulator : request -> result Counts) :
  let r := Execute (mkCircuit 8 8 (placements 4 2)) "qasm_simulator" 1000 in
  exec simulator run_simulation =
    match simulator r with
    | inl e => ([banner; Requested r], inl e)
    | inr counts =>
        match analyze_results counts with
        | inl e => ([banner; Requested r], inl e)
        | inr a => (banner :: Requested r :: report a, inr (counts, a))
        end
    end.
Proof.
  intros r. unfold run_simulation, simulate_string_theory.
  rewrite (build_returns 4 2 ltac:(lia)).
  change (mkCircuit (4 * 2) (4 * 2) (placements 4 2))
    with (mkCircuit 8 8 (placements 4 2)).
  cbn [call exec]. fold r.
  destruct (simulator r) as [e | counts]; [reflexivity|].
  destruct (analyze_results counts) as [e | a]; reflexivity.
Qed.

(** X10: whatever the simulator, [run_simulation] first prints its
    banner and then makes its one request (the circuit for 4 sites and 2
    dimensions, 1000 shots).  If it returns a pair, the first component
    is what the simulator answered, the second is the analysis of it,
    and the five result lines follow the request.  If it raises, the
    exception is the simulator's or the analyzer's, and nothing is
    printed after the banner. *)
Theorem run_simulation_outcomes (simulator : request -> result Counts) :
  exists circuit,
    create_string_vibration_circuit 4 2 = inr circuit /\
    let r := Execute circuit "qasm_simulator" 1000 in
    let log := fst (exec simulator run_simulation) in
    let res := snd (exec simulator run_simulation) in
    (forall counts a, res = inr (counts, a) ->
       simulator r = inr counts /\
       analyze_results counts = inr a /\
       log = banner :: Requested r :: report a) /\
    (forall e, res = inl e ->
       log = [banner; Requested r] /\
       (simulator r = inl e \/
        exists counts, simulator r = inr counts /\
                       analyze_results counts = inl e)).
Proof.
  exists (mkCircuit 8 8 (placements 4 2)).
  split; [apply (build_returns 4 2); lia|].
  cbn zeta. rewrite run_simulation_exec. cbn zeta.
  set (r := Execute _ _ _).
  destruct (simulator r) as [e | counts] eqn:Hsim.
  - cbn [fst snd]. split.
    + intros counts a Hres. discriminate Hres.
    + intros e' He. injection He as <-. split; [reflexivity | now left].
  - destruct (analyze_results counts) as [e | a] eqn:Han; cbn [fst snd]; split.
    + intros counts' a Hres. discriminate Hres.
    + intros e' He. injection He as <-. split; [reflexivity|].
      right. now exists counts.
    + intros counts' a' Hres. injection Hres as <- <-. now repeat split.
    + intros e He. discriminate He.
Qed.

(** X11: when the simulator answers the request with counts that are
    not negative and add up to the 1000 shots requested,
    [run_simulation] returns these counts with an analysis whose total
    is 1000, which has at least one unique state and a highest
    probability above 0 and at most 1, and it prints the banner and the
    five result lines around its one request. *)
Theorem run_simulation_on_full_counts
        (simulator : request -> result Counts) (counts : Counts) :
  simulator (Execute (mkCircuit 8 8 (placements 4 2))
                     "qasm_simulator" 1000) = inr counts ->
  Forall (fun kv => 0 <= snd kv) counts ->
  py_sum (map snd counts) = 1000 ->
  exists a,
    exec simulator run_simulation =
      (banner ::
       Requested (Execute (mkCircuit 8 8 (placements 4 2))
                          "qasm_simulator" 1000) ::
       report a,
       inr (counts, a)) /\
    analyze_results counts = inr a /\
    total_measurements a = 1000 /\
    1 <= unique_states a /\
    (0 < highest_probability a)%Q /\
    (highest_probability a <= 1)%Q.
Proof.
  intros Hsim Hpos Hsum.
  assert (Hne : counts <> []) by (intros ->; discriminate Hsum).
  destruct (py_max_nonempty counts Hne) as [kv Hkv].
  assert (Hnz : py_sum (map snd counts) <> 0) by lia.
  pose proof (analyze_results_eq _ _ Hkv Hnz) as Han.
  eexists. split; [|split; [exact Han|]].
  - pose proof (run_simulation_exec simulator) as Hex. cbn zeta in Hex.
    rewrite Hsim, Han in Hex. exact Hex.
  - cbn [total_measurements unique_states highest_probability].
    split; [exact Hsum|].
    split; [destruct counts; [now contradiction Hne | cbn [List.length]; lia]|].
    apply py_max_spec in Hkv as [Hin Hmax].
    assert (Hvals : Forall (fun x => 0 <= x) (map snd counts))
      by (apply Forall_map; exact Hpos).
    destruct (py_sum_bounds _ Hvals) as [_ Hle].
    assert (Htop : snd kv <= 1000)
      by (rewrite <- Hsum; apply Hle; now apply in_map).
    assert (Hlow : py_sum (map snd counts) <=
                   snd kv * Z.of_nat (List.length (map snd counts))).
    { apply py_sum_le_max. intros x Hx.
      apply in_map_iff in Hx as [y [<- Hy]]. now apply Hmax. }
    assert (Htop0 : 0 < snd kv) by nia.
    rewrite Hsum.
    assert (Heq : (Qred (inject_Z (snd kv) / inject_Z 1000)
                   == snd kv # 1000)%Q)
      by (rewrite Qred_correct; symmetry; apply Qmake_Qdiv).
    rewrite Heq. unfold Qlt, Qle. cbn. lia.
Qed.

Lemma run_simulation_on_full_counts_witness :
  exists a,
    analyze_results [("00000000", 1000)]%string = inr a /\
    total_measurements a = 1000.
Proof.
  assert (Hpos : Forall (fun kv : string * Z => 0 <= snd kv)
                        [("00000000", 1000)]%string)
    by (repeat constructor; cbn; lia).
  destruct (run_simulation_on_full_counts
              (fun _ => inr [("00000000", 1000)]%string)
              [("00000000", 1000)]%string eq_refl Hpos eq_refl)
    as [a [_ [Ha [Htot _]]]].
  exists a. split; [exact Ha | exact Htot].
Defined.
